(** * object-compare: [getChangedFields] and [hasChanges]

    A shallow embedding of [utils/compareObjects.ts] (the compiled
    [dist/esm/index.js] has the same body) and the properties of its
    field-diff algorithm.

    Modelling choices, all taken from what the source observes:

    - a JavaScript value is a [Value]: [undefined], [null], booleans,
      numbers (IEEE binary64, Rocq's primitive [float], so [NaN] and the two
      zeros behave under [===] as they do in JavaScript), strings, [Date]
      instances, arrays and plain objects;
    - [Date]s, arrays and objects carry the address of the instance: [===] on
      two of them compares addresses, never contents;
    - a plain object is the list of its own enumerable string-keyed
      properties in enumeration order ([Object.keys] order); arrays are dense;
    - property names are looked up among own properties only, which is what
      the code does for every name but the [inheritedNames] (members of
      [Object.prototype], [Array.prototype] and [Date.prototype], the
      [__proto__] accessor among them); the statements that depend on such a
      lookup assume [plainKeys currentValue]; sparse arrays, functions,
      symbols and cyclic structures are outside the model;
    - a custom comparator either returns a boolean or throws. *)

From Stdlib Require Import PrimFloat Uint63 ZArith DecimalString DecimalNat.
From Stdlib Require FloatAxioms SpecFloat.
From stdpp Require Import gmap strings list.

Set Warnings "-register-all".
Local Open Scope nat_scope.

(** ** Values *)

Inductive Value : Type :=
| VUndefined
| VNull
| VBool (b : bool)
| VNumber (x : float)
| VString (s : string)
| VDate (ref : nat) (time : float)
| VArray (ref : nat) (elems : list Value)
| VObject (ref : nat) (fields : list (string * Value)).

(** The own enumerable properties of an object, in enumeration order. *)
Abbreviation Fields := (list (string * Value)).

Module JS.

(** [typeof v] *)
Definition typeOf (v : Value) : string :=
  match v with
  | VUndefined => "undefined"
  | VBool _ => "boolean"
  | VNumber _ => "number"
  | VString _ => "string"
  | VNull | VDate _ _ | VArray _ _ | VObject _ _ => "object"
  end.

(** [x !== x], the only number for which it holds is [NaN] *)
Definition isNaN (x : float) : bool := negb (PrimFloat.eqb x x).

(** ToBoolean: [!v] is [negb (truthy v)] *)
Definition truthy (v : Value) : bool :=
  match v with
  | VUndefined | VNull => false
  | VBool b => b
  | VNumber x => negb (PrimFloat.eqb x 0%float || isNaN x)
  | VString s => negb (String.eqb s "")
  | VDate _ _ | VArray _ _ | VObject _ _ => true
  end.

(** [a === b]: no coercion; numbers by IEEE equality; instances by address *)
Definition strictEq (a b : Value) : bool :=
  match a, b with
  | VUndefined, VUndefined => true
  | VNull, VNull => true
  | VBool x, VBool y => Bool.eqb x y
  | VNumber x, VNumber y => PrimFloat.eqb x y
  | VString s, VString t => String.eqb s t
  | VDate r _, VDate r' _ => Nat.eqb r r'
  | VArray r _, VArray r' _ => Nat.eqb r r'
  | VObject r _, VObject r' _ => Nat.eqb r r'
  | _, _ => false
  end.

(** [v instanceof Date] *)
Definition instanceofDate (v : Value) : bool :=
  match v with VDate _ _ => true | _ => false end.

(** [d.getTime()]: the time value, [NaN] for an invalid date *)
Definition getTime (v : Value) : float :=
  match v with VDate _ t => t | _ => nan end.

(** [Array.isArray(v)] *)
Definition isArray (v : Value) : bool :=
  match v with VArray _ _ => true | _ => false end.

(** The number [n] as a JavaScript number (array lengths are below 2^32). *)
Definition numberOfNat (n : nat) : float :=
  PrimFloat.of_uint63 (Uint63.of_Z (Z.of_nat n)).

(** [String(i)] for an array index [i] *)
Definition indexKey (i : nat) : string :=
  NilEmpty.string_of_uint (Nat.to_uint i).

(** A property name is an array index when it is the canonical decimal
    numeral of a number: ["0"], ["12"], but not ["012"] or [""]. *)
Definition arrayIndex (key : string) : option nat :=
  match NilEmpty.uint_of_string key with
  | Some d =>
      let i := Nat.of_uint d in
      if String.eqb (indexKey i) key then Some i else None
  | None => None
  end.

Fixpoint lookupField (fs : Fields) (key : string) : option Value :=
  match fs with
  | [] => None
  | (k, v) :: fs' => if String.eqb k key then Some v else lookupField fs' key
  end.

(** [Object.keys(v)] for a value of type object: the indices of an array,
    the own keys of a plain object, nothing for a [Date]. *)
Definition ownKeys (v : Value) : list string :=
  match v with
  | VArray _ xs => map indexKey (seq 0 (length xs))
  | VObject _ fs => map fst fs
  | _ => []
  end.

(** [v[key]] for a value of type object: an own field of a plain object; an
    element or the [length] of an array; [undefined] for what is not there.
    Own properties only: exact for every [key] that is not one of the
    [inheritedNames] below. *)
Definition getProp (v : Value) (key : string) : Value :=
  match v with
  | VObject _ fs => default VUndefined (lookupField fs key)
  | VArray _ xs =>
      match arrayIndex key with
      | Some i => nth i xs VUndefined
      | None =>
          if String.eqb key "length" then VNumber (numberOfNat (length xs))
          else VUndefined
      end
  | _ => VUndefined
  end.

(** [arr[index]] with a numeric index *)
Definition getIndex (v : Value) (index : nat) : Value :=
  getProp v (indexKey index).

(** [arr.length] *)
Definition arrayLength (v : Value) : nat :=
  match v with VArray _ xs => length xs | _ => 0 end.

(** [obj[key] = v] on an object under construction: an existing property
    keeps its place, a new one goes last. *)
Fixpoint setField (fs : Fields) (key : string) (v : Value) : Fields :=
  match fs with
  | [] => [(key, v)]
  | (k, w) :: fs' =>
      if String.eqb k key then (k, v) :: fs' else (k, w) :: setField fs' key v
  end.

End JS.

Import JS.

(** ** The comparator *)

(** [isPrimitive]: the helper of [getChangedFields] that recognises a
    primitive or a [Date]. *)
Definition isPrimitive (value : Value) : bool :=
  match value with
  | VNull => true
  | VUndefined => true
  | VString _ => true
  | VNumber _ => true
  | VBool _ => true
  | VDate _ _ => true
  | VArray _ _ | VObject _ _ => false
  end.

(** [typeof v === "object" && v !== null] *)
Definition isNonNullObject (v : Value) : bool :=
  String.eqb (typeOf v) "object" && negb (strictEq v VNull).

(** [areEqual], the recursive helper of [getChangedFields]; [deep] is the
    option it closes over.  The recursion is structural in [current]: the two
    [every] loops walk the elements (the fields) of [current] itself, so
    [current[key]] for an own key is found by the walk ([fieldAt],
    [elemAt]).  [areEqual_unfold] below restates the body with the
    source's [current[key]] and [original[key]]. *)
Fixpoint areEqual (deep : bool) (current original : Value) {struct current} : bool :=
  if isPrimitive current || isPrimitive original then
    if instanceofDate current && instanceofDate original then
      PrimFloat.eqb (getTime current) (getTime original)
    else strictEq current original
  else if isArray current && isArray original then
    if negb (arrayLength current =? arrayLength original) then false
    else if negb deep then strictEq current original
    else
      match current with
      | VArray _ xs =>
          (fix every (l : list Value) (index : nat) {struct l} : bool :=
             match l with
             | [] => true
             | value :: l' =>
                 areEqual deep value (getIndex original index)
                 && every l' (S index)
             end) xs 0
      | _ => true
      end
  else if isNonNullObject current && isNonNullObject original then
    if negb deep then strictEq current original
    else if negb (length (ownKeys current) =? length (ownKeys original)) then false
    else
      forallb
        (fun key =>
           match current with
           | VObject _ fs =>
               (fix fieldAt (l : Fields) {struct l} : bool :=
                  match l with
                  | [] => strictEq VUndefined (getProp original key)
                  | (k, v) :: l' =>
                      if String.eqb k key
                      then areEqual deep v (getProp original key)
                      else fieldAt l'
                  end) fs
           | VArray _ xs =>
               (fix elemAt (l : list Value) (i : nat) {struct l} : bool :=
                  match l with
                  | [] => strictEq VUndefined (getProp original key)
                  | v :: l' =>
                      if String.eqb (indexKey i) key
                      then areEqual deep v (getProp original key)
                      else elemAt l' (S i)
                  end) xs 0
           | _ => true
           end)
        (ownKeys current)
  else strictEq current original.

(** ** Errors *)

(** What a call can throw: the error of the argument check, or whatever a
    caller-supplied comparator threw (it is not caught). *)
Inductive Exception : Type :=
| InvalidArgument
    (* new Error("Both currentValue and originalValue must be objects") *)
| ComparatorThrew (thrown : Value).

Inductive Completion (A : Type) : Type :=
| Normal (a : A)
| Throw (e : Exception).
Arguments Normal {A} a.
Arguments Throw {A} e.

#[global] Instance Completion_ret : MRet Completion := @Normal.
#[global] Instance Completion_bind : MBind Completion :=
  fun A B f m => match m with Normal a => f a | Throw e => Throw e end.

(** ** Options *)

Inductive ComparatorOutcome : Type :=
| Returns (b : bool)
| Throws (thrown : Value).

(** [(current: T[K], original: T[K]) => boolean] *)
Abbreviation Comparator := (Value -> Value -> ComparatorOutcome).

(** [CompareOptions<T>]: every member is optional. *)
Record CompareOptions : Type := {
  includeNullish : option bool;
  customComparators : option (gmap string Comparator);
  deep : option bool;
  ignoreFields : option (list string)
}.

(** [{}] *)
Definition noOptions : CompareOptions :=
  {| includeNullish := None; customComparators := None;
     deep := None; ignoreFields := None |}.

(** ** getChangedFields *)

(** [v === undefined || v === null] *)
Definition isNullish (v : Value) : bool :=
  strictEq v VUndefined || strictEq v VNull.

(** The callback of [Object.keys(currentValue).forEach], with the
    destructured options and the object it fills as explicit arguments.
    [customComparators !! key] is the registered comparator: exact for every
    [key] that is not one of the [inheritedNames] below. *)
Definition visitKey
    (includeNullish : bool) (customComparators : gmap string Comparator)
    (deep : bool) (ignoreFields : list string)
    (currentValue originalValue : Value)
    (changedFields : Fields) (key : string) : Completion Fields :=
  if bool_decide (key ∈ ignoreFields) then mret changedFields
  else
    let currentField := getProp currentValue key in
    let originalField := getProp originalValue key in
    match customComparators !! key with
    | Some comparator =>
        match comparator currentField originalField with
        | Throws thrown => Throw (ComparatorThrew thrown)
        | Returns b =>
            if negb b then mret (setField changedFields key currentField)
            else mret changedFields
        end
    | None =>
        if negb includeNullish && isNullish currentField && isNullish originalField
        then mret changedFields
        else if negb (areEqual deep currentField originalField)
        then mret (setField changedFields key currentField)
        else mret changedFields
    end.

(** [keys.forEach(callback)]: a throwing callback ends the loop. *)
Fixpoint forEach (keys : list string)
    (callback : Fields -> string -> Completion Fields)
    (changedFields : Fields) : Completion Fields :=
  match keys with
  | [] => mret changedFields
  | key :: keys' =>
      changedFields' ← callback changedFields key;
      forEach keys' callback changedFields'
  end.

(** [options] is [None] when the caller leaves the argument out. *)
Definition getChangedFields (currentValue originalValue : Value)
    (options : option CompareOptions) : Completion Fields :=
  let options := default noOptions options in
  if negb (truthy currentValue)
     || negb (truthy originalValue)
     || negb (String.eqb (typeOf currentValue) "object")
     || negb (String.eqb (typeOf originalValue) "object")
  then Throw InvalidArgument
  else
    let includeNullish := default false (includeNullish options) in
    let customComparators := default ∅ (customComparators options) in
    let deep := default true (deep options) in
    let ignoreFields := default [] (ignoreFields options) in
    forEach (ownKeys currentValue)
      (visitKey includeNullish customComparators deep ignoreFields
         currentValue originalValue)
      [].

(** ** hasChanges *)

Definition hasChanges (currentValue originalValue : Value)
    (options : option CompareOptions) : Completion bool :=
  changedFields ← getChangedFields currentValue originalValue options;
  mret (0 <? length (map fst changedFields)).

(** ** Vocabulary for the statements *)

(** The options as [getChangedFields] destructures them, defaults applied. *)
Definition includeNullishOf (options : option CompareOptions) : bool :=
  default false (includeNullish (default noOptions options)).
Definition customComparatorsOf (options : option CompareOptions)
    : gmap string Comparator :=
  default ∅ (customComparators (default noOptions options)).
Definition deepOf (options : option CompareOptions) : bool :=
  default true (deep (default noOptions options)).
Definition ignoreFieldsOf (options : option CompareOptions) : list string :=
  default [] (ignoreFields (default noOptions options)).

(** The values the argument check lets through: those whose [typeof] is
    ["object"] and that are not [null]. *)
Definition isObjectValue (v : Value) : bool :=
  match v with
  | VDate _ _ | VArray _ _ | VObject _ _ => true
  | _ => false
  end.

(** What one round of the [forEach] callback decides for [key]: whether the
    field is written into [changedFields], or what the comparator threw.
    Like [visitKey], exact for every [key] outside the [inheritedNames]. *)
Definition verdict
    (includeNullish : bool) (customComparators : gmap string Comparator)
    (deep : bool) (ignoreFields : list string)
    (currentValue originalValue : Value) (key : string) : Completion bool :=
  if bool_decide (key ∈ ignoreFields) then mret false
  else
    match customComparators !! key with
    | Some comparator =>
        match comparator (getProp currentValue key) (getProp originalValue key) with
        | Throws thrown => Throw (ComparatorThrew thrown)
        | Returns b => mret (negb b)
        end
    | None =>
        if negb includeNullish
           && isNullish (getProp currentValue key)
           && isNullish (getProp originalValue key)
        then mret false
        else mret (negb (areEqual deep (getProp currentValue key)
                           (getProp originalValue key)))
    end.

(** The keys of a result object. *)
Definition keysOf (fs : Fields) : list string := map fst fs.

(** A pair of equally shaped nestings, one layer per list element: the
    current and the original side of a layer are different instances. *)
Inductive Layer : Type :=
| InArray (currentRef originalRef : nat)
| InRecord (key : string) (currentRef originalRef : nat).

Fixpoint nestCurrent (path : list Layer) (v : Value) : Value :=
  match path with
  | [] => v
  | InArray r _ :: path' => VArray r [nestCurrent path' v]
  | InRecord key r _ :: path' => VObject r [(key, nestCurrent path' v)]
  end.

Fixpoint nestOriginal (path : list Layer) (v : Value) : Value :=
  match path with
  | [] => v
  | InArray _ r :: path' => VArray r [nestOriginal path' v]
  | InRecord key _ r :: path' => VObject r [(key, nestOriginal path' v)]
  end.

(** ** Sample values *)

Definition num1 : Value := VNumber 1%float.
Definition num2 : Value := VNumber 2%float.
Definition num30 : Value := VNumber 30%float.

Definition onlyDeep (b : bool) : option CompareOptions :=
  Some {| includeNullish := None; customComparators := None;
          deep := Some b; ignoreFields := None |}.

Definition onlyIncludeNullish (b : bool) : option CompareOptions :=
  Some {| includeNullish := Some b; customComparators := None;
          deep := None; ignoreFields := None |}.

Definition onlyComparator (key : string) (c : Comparator)
    : option CompareOptions :=
  Some {| includeNullish := None; customComparators := Some {[ key := c ]};
          deep := None; ignoreFields := None |}.

(** [{age: null}] and [{age: 30}] *)
Definition ageNull : Value := VObject 1 [("age", VNull)].
Definition ageThirty : Value := VObject 2 [("age", num30)].

(** [{a: v}] *)
Definition underA (objRef : nat) (v : Value) : Value :=
  VObject objRef [("a", v)].

(** [[1]] and [{"0": 1}] *)
Definition arrayOfOne : Value := VArray 3 [num1].
Definition recordOfOne : Value := VObject 4 [("0", num1)].

(** [{a: 1}] and [{a: 1, b: 2}] *)
Definition justA : Value := VObject 5 [("a", num1)].
Definition withB : Value := VObject 6 [("a", num1); ("b", num2)].

Definition cTwo : Value := VObject 8 [("a", num1); ("c", num2)].

(** [{a: null}] and [{}] *)
Definition aNull : Value := VObject 9 [("a", VNull)].
Definition emptyRecord : Value := VObject 10 [].

(** [(c, o) => false] *)
Definition alwaysChanged : Comparator := fun _ _ => Returns false.

(** ** Inherited names *)

(** The property names a plain object, an array or a [Date] finds on its
    prototype chain ([Object.prototype], [Array.prototype], [Date.prototype],
    ECMAScript 2025 with the legacy members).  For such a name [obj[key]] on an
    object that lacks it is the inherited member, not [undefined], and
    [customComparators[key]] on a plain object is an inherited function.  For
    every other name, [getProp] and the comparator lookup of [visitKey] are
    what the code does. *)
Definition inheritedNames : list string :=
  [ "constructor"; "__defineGetter__"; "__defineSetter__"; "hasOwnProperty";
    "__lookupGetter__"; "__lookupSetter__"; "isPrototypeOf";
    "propertyIsEnumerable"; "toString"; "valueOf"; "__proto__";
    "toLocaleString"; "toSource"; "watch"; "unwatch";
    "at"; "concat"; "copyWithin"; "fill"; "find"; "findIndex"; "findLast";
    "findLastIndex"; "lastIndexOf"; "pop"; "push"; "reverse"; "shift";
    "unshift"; "slice"; "sort"; "splice"; "includes"; "indexOf"; "join";
    "keys"; "entries"; "values"; "forEach"; "filter"; "flat"; "flatMap";
    "map"; "every"; "some"; "reduce"; "reduceRight"; "toReversed";
    "toSorted"; "toSpliced"; "with"; "group"; "groupBy"; "groupToMap";
    "toDateString"; "toTimeString"; "toISOString"; "toUTCString";
    "toGMTString"; "toJSON"; "toLocaleDateString"; "toLocaleTimeString";
    "toTemporalInstant"; "getTimezoneOffset"; "getYear"; "setYear";
    "getDate"; "setDate"; "getDay"; "getFullYear"; "setFullYear";
    "getHours"; "setHours"; "getMilliseconds"; "setMilliseconds";
    "getMinutes"; "setMinutes"; "getMonth"; "setMonth"; "getSeconds";
    "setSeconds"; "getTime"; "setTime";
    "getUTCDate"; "setUTCDate"; "getUTCDay"; "getUTCFullYear";
    "setUTCFullYear"; "getUTCHours"; "setUTCHours"; "getUTCMilliseconds";
    "setUTCMilliseconds"; "getUTCMinutes"; "setUTCMinutes"; "getUTCMonth";
    "setUTCMonth"; "getUTCSeconds"; "setUTCSeconds" ].

Definition inheritedName (key : string) : bool :=
  existsb (String.eqb key) inheritedNames.

(** No field of the value, at any depth, has an inherited name: on such a
    [currentValue] every property read and every comparator lookup of
    [getChangedFields] and [areEqual] goes to an own property or finds
    nothing, as [getProp] and [visitKey] have it. *)
Fixpoint plainKeys (v : Value) : bool :=
  match v with
  | VArray _ xs => forallb plainKeys xs
  | VObject _ fs =>
      forallb (fun kv => negb (inheritedName (fst kv)) && plainKeys (snd kv)) fs
  | _ => true
  end.

(** ** Vocabulary for the further properties *)

(** No [NaN] anywhere in a value: no number that is [NaN] and no invalid
    [Date], at any depth. *)
Fixpoint noNaN (v : Value) : bool :=
  match v with
  | VNumber x => negb (isNaN x)
  | VDate _ t => negb (isNaN t)
  | VArray _ xs => forallb noNaN xs
  | VObject _ fs => forallb (fun kv => noNaN (snd kv)) fs
  | _ => true
  end.

(** The same value built again, the instance at address [r] now at [f r]: a
    structural copy. *)
Fixpoint copyAt (f : nat -> nat) (v : Value) : Value :=
  match v with
  | VDate r t => VDate (f r) t
  | VArray r xs => VArray (f r) (map (copyAt f) xs)
  | VObject r fs =>
      VObject (f r) (map (fun kv => (fst kv, copyAt f (snd kv))) fs)
  | _ => v
  end.

(** A round of the callback that ends by writing the field. *)
Definition writes (decision : Completion bool) : bool :=
  match decision with
  | Normal true => true
  | _ => false
  end.

(** [verdict] under the options of a call. *)
Definition verdictOf (options : option CompareOptions)
    (currentValue originalValue : Value) (key : string) : Completion bool :=
  verdict (includeNullishOf options) (customComparatorsOf options)
    (deepOf options) (ignoreFieldsOf options) currentValue originalValue key.

(** The options [options] with [key] added to [ignoreFields]. *)
Definition alsoIgnoring (key : string) (options : option CompareOptions)
    : option CompareOptions :=
  Some {| includeNullish := includeNullish (default noOptions options);
          customComparators := customComparators (default noOptions options);
          deep := deep (default noOptions options);
          ignoreFields := Some (key :: ignoreFieldsOf options) |}.

(** ** Further sample values *)

Definition onlyIgnore (keys : list string) : option CompareOptions :=
  Some {| includeNullish := None; customComparators := None;
          deep := None; ignoreFields := Some keys |}.

(** [{ignoreFields: [key], customComparators: {[key]: c}}] *)
Definition ignoredWithComparator (key : string) (c : Comparator)
    : option CompareOptions :=
  Some {| includeNullish := None; customComparators := Some {[ key := c ]};
          deep := None; ignoreFields := Some [key] |}.

(** [(c, o) => { throw "no" }] *)
Definition alwaysThrows : Comparator := fun _ _ => Throws (VString "no").

(** The record of the usage example: [{name: "John", age: 30, address:
    {street: "Main St", city: "Boston"}, tags: ["user", "admin"]}], built at
    the addresses [r], [r + 1] and [r + 2]. *)
Definition john (r : nat) : Value :=
  VObject r
    [("name", VString "John");
     ("age", num30);
     ("address",
       VObject (r + 1) [("street", VString "Main St"); ("city", VString "Boston")]);
     ("tags", VArray (r + 2) [VString "user"; VString "admin"])].

(** [{a: NaN}] *)
Definition aNaN (r : nat) : Value := VObject r [("a", VNumber nan)].

(** ** Own properties *)

Lemma indexKey_arrayIndex i : arrayIndex (indexKey i) = Some i.
Proof.
  unfold arrayIndex, indexKey.
  rewrite NilEmpty.usu, Unsigned.of_to.
  by rewrite String.eqb_refl.
Qed.

Lemma indexKey_inj i j : indexKey i = indexKey j -> i = j.
Proof.
  intros H. apply (f_equal arrayIndex) in H.
  rewrite !indexKey_arrayIndex in H. congruence.
Qed.

Lemma getIndex_array r xs i : getIndex (VArray r xs) i = nth i xs VUndefined.
Proof. unfold getIndex; simpl. by rewrite indexKey_arrayIndex. Qed.

Lemma lookupField_keys (fs : Fields) k :
  k ∈ keysOf fs <-> is_Some (lookupField fs k).
Proof.
  unfold keysOf. induction fs as [|[k' v] fs IH]; simpl.
  - split; [by intros ?%elem_of_nil | by intros [? ?]].
  - rewrite elem_of_cons, IH. destruct (String.eqb_spec k' k) as [->|Hne].
    + split; eauto.
    + split; [intros [?|?]; [congruence | done] | eauto].
Qed.

Lemma lookupField_setField (fs : Fields) key v k :
  lookupField (setField fs key v) k =
  if String.eqb key k then Some v else lookupField fs k.
Proof.
  induction fs as [|[k' w] fs IH]; simpl.
  - done.
  - destruct (String.eqb_spec k' key) as [->|Hne]; simpl.
    + by destruct (String.eqb key k).
    + rewrite IH. destruct (String.eqb_spec k' k) as [->|?]; [|done].
      destruct (String.eqb_spec key k); [congruence | done].
Qed.

(** ** The comparator, as the source writes it *)

Lemma forallb_ext_in {A} (f g : A -> bool) (l : list A) :
  (forall x, x ∈ l -> f x = g x) -> forallb f l = forallb g l.
Proof.
  induction l as [|x l IH]; intros H; simpl; [done|].
  rewrite H by (apply elem_of_cons; by left).
  rewrite IH; [done|]. intros y Hy. apply H, elem_of_cons. by right.
Qed.

Lemma forallb_over_map {A B} (g : A -> B) (f : B -> bool) (l : list A) :
  forallb f (map g l) = forallb (fun x => f (g x)) l.
Proof. induction l as [|x l IH]; simpl; [done | by rewrite IH]. Qed.

Lemma areEqual_undefined deep v : areEqual deep VUndefined v = strictEq VUndefined v.
Proof. by destruct v. Qed.

(** Rule 1: one side is a primitive or a [Date]. *)
Lemma areEqual_primitive deep current original :
  isPrimitive current || isPrimitive original = true ->
  areEqual deep current original =
    if instanceofDate current && instanceofDate original
    then PrimFloat.eqb (getTime current) (getTime original)
    else strictEq current original.
Proof.
  intros H. destruct current; simpl in *; try done; by rewrite H.
Qed.

(** The walk over the elements of [current] is [every] over its indices. *)
Lemma every_indexed (eq : Value -> Value -> bool) original l index :
  (fix every (l : list Value) (index : nat) {struct l} : bool :=
     match l with
     | [] => true
     | value :: l' => eq value (getIndex original index) && every l' (S index)
     end) l index
  = forallb (fun i => eq (nth (i - index) l VUndefined) (getIndex original i))
      (seq index (length l)).
Proof.
  revert index. induction l as [|v l IH]; intros index; [done|].
  simpl. rewrite Nat.sub_diag. f_equal. rewrite IH.
  apply forallb_ext_in. intros i [Hi _]%elem_of_seq.
  replace (i - index) with (S (i - S index)) by lia. done.
Qed.

(** Rule 2: both sides are arrays. *)
Lemma areEqual_arrays deep r xs r' ys :
  areEqual deep (VArray r xs) (VArray r' ys) =
    if negb (length xs =? length ys) then false
    else if negb deep then Nat.eqb r r'
    else forallb
           (fun index =>
              areEqual deep (nth index xs VUndefined) (nth index ys VUndefined))
           (seq 0 (length xs)).
Proof.
  simpl. destruct (negb (length xs =? length ys)); [done|].
  destruct deep; simpl; [|done].
  etrans; [exact (every_indexed (areEqual true) (VArray r' ys) xs 0)|].
  apply forallb_ext_in. intros i _.
  by rewrite Nat.sub_0_r, getIndex_array.
Qed.

(** The walk that finds [current[key]] among the fields of a plain object. *)
Lemma fieldAt_lookup (eq : Value -> Value -> bool) (other : Value) key (l : Fields) :
  (forall v, eq VUndefined v = strictEq VUndefined v) ->
  (fix fieldAt (l : Fields) {struct l} : bool :=
     match l with
     | [] => strictEq VUndefined other
     | (k, v) :: l' => if String.eqb k key then eq v other else fieldAt l'
     end) l
  = eq (default VUndefined (lookupField l key)) other.
Proof.
  intros Hundef. induction l as [|[k v] l IH]; simpl.
  - by rewrite Hundef.
  - by destruct (String.eqb k key).
Qed.

(** The walk that finds [current[key]] among the elements of an array, for
    [key] the name of the index [j]. *)
Lemma elemAt_lookup (eq : Value -> Value -> bool) (other : Value) j (l : list Value) i :
  (forall v, eq VUndefined v = strictEq VUndefined v) ->
  i <= j ->
  (fix elemAt (l : list Value) (i : nat) {struct l} : bool :=
     match l with
     | [] => strictEq VUndefined other
     | v :: l' =>
         if String.eqb (indexKey i) (indexKey j) then eq v other
         else elemAt l' (S i)
     end) l i
  = eq (nth (j - i) l VUndefined) other.
Proof.
  intros Hundef. revert i. induction l as [|v l IH]; intros i Hij; simpl.
  - by destruct (j - i); rewrite Hundef.
  - destruct (String.eqb_spec (indexKey i) (indexKey j)) as [Heq|Hne].
    + apply indexKey_inj in Heq as ->. by rewrite Nat.sub_diag.
    + assert (i <> j) by congruence.
      rewrite IH by lia. by replace (j - i) with (S (j - S i)) by lia.
Qed.

(** Rule 3: neither side is a primitive or a [Date], and they are not both
    arrays. *)
Lemma areEqual_objects deep current original :
  isPrimitive current || isPrimitive original = false ->
  isArray current && isArray original = false ->
  areEqual deep current original =
    if negb deep then strictEq current original
    else if negb (length (ownKeys current) =? length (ownKeys original)) then false
    else forallb
           (fun key => areEqual deep (getProp current key) (getProp original key))
           (ownKeys current).
Proof.
  intros Hprim Harr.
  destruct current as [| | | | | |r xs|r fs]; try done;
    destruct original as [| | | | | |r' ys|r' gs]; try done;
    destruct deep; try done.
  - (* an array against a plain object *)
    cbn -[ownKeys getProp forallb].
    destruct (negb _); [done|].
    apply forallb_ext_in. intros key (j & -> & _)%list_elem_of_fmap.
    etrans; [exact (elemAt_lookup (areEqual true) _ j xs 0
                      (areEqual_undefined true) (Nat.le_0_l j))|].
    by rewrite Nat.sub_0_r, <- getIndex_array with (r := r).
  - (* a plain object against an array *)
    cbn -[ownKeys getProp forallb].
    destruct (negb _); [done|].
    apply forallb_ext_in. intros key _.
    exact (fieldAt_lookup (areEqual true) _ key fs (areEqual_undefined true)).
  - (* two plain objects *)
    cbn -[ownKeys getProp forallb].
    destruct (negb _); [done|].
    apply forallb_ext_in. intros key _.
    exact (fieldAt_lookup (areEqual true) _ key fs (areEqual_undefined true)).
Qed.

(** The whole body of [areEqual], with the [every] loops of the source. *)
Lemma areEqual_unfold deep current original :
  areEqual deep current original =
    if isPrimitive current || isPrimitive original then
      if instanceofDate current && instanceofDate original
      then PrimFloat.eqb (getTime current) (getTime original)
      else strictEq current original
    else if isArray current && isArray original then
      if negb (arrayLength current =? arrayLength original) then false
      else if negb deep then strictEq current original
      else forallb
             (fun index =>
                areEqual deep (getIndex current index) (getIndex original index))
             (seq 0 (arrayLength current))
    else if isNonNullObject current && isNonNullObject original then
      if negb deep then strictEq current original
      else if negb (length (ownKeys current) =? length (ownKeys original)) then false
      else forallb
             (fun key => areEqual deep (getProp current key) (getProp original key))
             (ownKeys current)
    else strictEq current original.
Proof.
  destruct (isPrimitive current || isPrimitive original) eqn:Hprim.
  { by apply areEqual_primitive. }
  destruct (isArray current && isArray original) eqn:Harr.
  - destruct current as [| | | | | |r xs|]; try done.
    destruct original as [| | | | | |r' ys|]; try done.
    rewrite areEqual_arrays. cbn [arrayLength strictEq].
    do 2 (destruct (negb _); [done|]).
    apply forallb_ext_in. intros i _. by rewrite !getIndex_array.
  - rewrite areEqual_objects by done.
    destruct current; try done; destruct original; try done.
Qed.

(** ** The argument check *)

Lemma object_check v :
  truthy v && String.eqb (typeOf v) "object" = isObjectValue v.
Proof. destruct v; simpl; by rewrite ?andb_false_r. Qed.

Lemma argument_check currentValue originalValue :
  negb (truthy currentValue)
  || negb (truthy originalValue)
  || negb (String.eqb (typeOf currentValue) "object")
  || negb (String.eqb (typeOf originalValue) "object")
  = negb (isObjectValue currentValue && isObjectValue originalValue).
Proof.
  rewrite <- !object_check.
  by destruct (truthy currentValue), (truthy originalValue),
    (String.eqb (typeOf currentValue) "object"),
    (String.eqb (typeOf originalValue) "object").
Qed.

(** [getChangedFields] is the check followed by the loop. *)
Lemma getChangedFields_unfold currentValue originalValue options :
  getChangedFields currentValue originalValue options =
    if isObjectValue currentValue && isObjectValue originalValue
    then forEach (ownKeys currentValue)
           (visitKey (includeNullishOf options) (customComparatorsOf options)
              (deepOf options) (ignoreFieldsOf options)
              currentValue originalValue) []
    else Throw InvalidArgument.
Proof.
  unfold getChangedFields. rewrite argument_check.
  by destruct (isObjectValue currentValue && isObjectValue originalValue).
Qed.

(** ** The loop over the keys of [currentValue] *)

Section Loop.
Variables (includeNullish : bool) (customComparators : gmap string Comparator).
Variables (deep : bool) (ignoreFields : list string).
Variables (currentValue originalValue : Value).

Let visit := visitKey includeNullish customComparators deep ignoreFields
               currentValue originalValue.
Let decided := verdict includeNullish customComparators deep ignoreFields
                 currentValue originalValue.

(** One round writes [currentValue[key]] under [key], or leaves the
    object alone, or throws what the comparator threw. *)
Lemma visitKey_verdict changedFields key :
  visit changedFields key =
    match decided key with
    | Normal b =>
        Normal (if b then setField changedFields key (getProp currentValue key)
                else changedFields)
    | Throw e => Throw e
    end.
Proof.
  unfold visit, decided, visitKey, verdict.
  destruct (bool_decide _); [done|].
  destruct (customComparators !! key) as [comparator|].
  - destruct (comparator _ _) as [[]|]; done.
  - destruct (negb includeNullish && _ && _); [done|].
    by destruct (areEqual _ _ _).
Qed.

(** The loop never throws the error of the argument check. *)
Lemma forEach_not_InvalidArgument keys changedFields :
  forEach keys visit changedFields <> Throw InvalidArgument.
Proof.
  revert changedFields. induction keys as [|key keys IH]; intros cf; [done|].
  simpl. rewrite visitKey_verdict.
  destruct (decided key) as [b|e] eqn:Hd; simpl; [apply IH|].
  unfold decided, verdict in Hd.
  destruct (bool_decide _); [done|].
  destruct (customComparators !! key) as [comparator|].
  - destruct (comparator _ _); [done|]. by injection Hd as <-.
  - by destruct (negb includeNullish && _ && _).
Qed.

(** What the finished loop holds under each name. *)
Lemma forEach_lookup (keys : list string) changedFields result :
  forEach keys visit changedFields = Normal result ->
  forall k : string,
    (k ∉ keys -> lookupField result k = lookupField changedFields k) /\
    (k ∈ keys -> exists b,
        decided k = Normal b /\
        lookupField result k =
          if b then Some (getProp currentValue k)
          else lookupField changedFields k).
Proof.
  revert changedFields.
  induction keys as [|key keys IH]; intros cf Hrun k.
  { injection Hrun as <-. split; [done | by intros ?%elem_of_nil]. }
  simpl in Hrun. rewrite visitKey_verdict in Hrun.
  destruct (decided key) as [b0|] eqn:Hkey; [|done]. simpl in Hrun.
  destruct (IH _ Hrun k) as [Hout Hin].
  assert (Hstep : lookupField
            (if b0 then setField cf key (getProp currentValue key) else cf) k
          = if String.eqb key k && b0 then Some (getProp currentValue key)
            else lookupField cf k).
  { destruct b0; [|by rewrite andb_false_r].
    rewrite lookupField_setField. by destruct (String.eqb key k). }
  split.
  - intros Hk. rewrite Hout by (contradict Hk; apply elem_of_cons; by right).
    rewrite Hstep. destruct (String.eqb_spec key k) as [->|]; [|done].
    contradict Hk. apply elem_of_cons. by left.
  - intros Hk. destruct (decide (k ∈ keys)) as [Hlater|Hlater].
    + destruct (Hin Hlater) as (b & Hb & Hres). exists b. split; [done|].
      rewrite Hres, Hstep. destruct b; [done|].
      destruct (String.eqb_spec key k) as [->|]; [|done].
      rewrite Hkey in Hb. by injection Hb as ->.
    + apply elem_of_cons in Hk as [->|?]; [|done].
      exists b0. split; [done|].
      rewrite Hout, Hstep by done. rewrite String.eqb_refl. by destruct b0.
Qed.

End Loop.

(** ** The result is a part of [currentValue] *)

(** C1 — Whenever [getChangedFields] returns, every key of the result is an
    own key of [currentValue], a key that only [originalValue] has is not in
    the result, and the value recorded under a key is the one [currentValue]
    has there: the result is a sub-mapping of [currentValue]. *)
Theorem getChangedFields_keys_subset currentValue originalValue options result :
  getChangedFields currentValue originalValue options = Normal result ->
  (forall k, k ∈ keysOf result -> k ∈ ownKeys currentValue) /\
  (forall k, k ∈ ownKeys originalValue -> k ∉ ownKeys currentValue ->
             k ∉ keysOf result) /\
  (forall k v, lookupField result k = Some v -> v = getProp currentValue k).
Proof.
  rewrite getChangedFields_unfold.
  destruct (isObjectValue currentValue && isObjectValue originalValue); [|done].
  intros Hrun.
  assert (Hsub : forall k, k ∈ keysOf result -> k ∈ ownKeys currentValue).
  { intros k Hk%lookupField_keys.
    destruct (decide (k ∈ ownKeys currentValue)) as [|Hout]; [done|].
    apply (forEach_lookup _ _ _ _ _ _ _ _ _ Hrun k) in Hout.
    rewrite Hout in Hk. by destruct Hk. }
  split; [done|]. split.
  - intros k _ Hout Hk. by apply Hout, Hsub.
  - intros k v Hv.
    assert (Hk : k ∈ ownKeys currentValue).
    { apply Hsub, lookupField_keys. by rewrite Hv. }
    apply (forEach_lookup _ _ _ _ _ _ _ _ _ Hrun k) in Hk as ([] & _ & Hres).
    + congruence.
    + by rewrite Hv in Hres.
Qed.

Lemma getChangedFields_keys_subset_witness :
  getChangedFields withB cTwo None = Normal [("b", num2)] /\
  (forall k, k ∈ keysOf [("b", num2)] -> k ∈ ownKeys withB) /\
  (forall k, k ∈ ownKeys cTwo -> k ∉ ownKeys withB -> k ∉ keysOf [("b", num2)]) /\
  (forall k v, lookupField [("b", num2)] k = Some v -> v = getProp withB k).
Proof.
  split; [reflexivity|].
  apply (getChangedFields_keys_subset withB cTwo None). reflexivity.
Defined.

(** ** The argument check *)

(** C2, as the code has it — [getChangedFields] throws its error exactly
    when [currentValue] or [originalValue] is [undefined], [null], a boolean,
    a number or a string, whatever the options are (so before any field is
    read or any comparator called); arrays and [Date]s pass the check.
    [hasChanges] throws the same error in exactly the same cases. *)
Theorem invalid_argument_exactly currentValue originalValue options :
  (getChangedFields currentValue originalValue options = Throw InvalidArgument
   <-> isObjectValue currentValue = false \/ isObjectValue originalValue = false)
  /\
  (hasChanges currentValue originalValue options = Throw InvalidArgument
   <-> isObjectValue currentValue = false \/ isObjectValue originalValue = false).
Proof.
  assert (Hget :
    getChangedFields currentValue originalValue options = Throw InvalidArgument
    <-> isObjectValue currentValue = false \/ isObjectValue originalValue = false).
  { rewrite getChangedFields_unfold.
    destruct (isObjectValue currentValue), (isObjectValue originalValue); simpl;
      try (split; [intros _; auto | done]).
    split; [|by intros [|]].
    by intros ?%forEach_not_InvalidArgument. }
  split; [done|]. rewrite <- Hget. unfold hasChanges.
  destruct (getChangedFields _ _ _) as [changed|e];
    cbv [mbind Completion_bind mret Completion_ret].
  - split; discriminate.
  - split; intros [= ->]; reflexivity.
Qed.

(** C2, as stated, fails: an array passed as [currentValue] is not
    rejected, its indices are diffed as field names. *)
Lemma array_argument_accepted :
  ~ (isArray arrayOfOne = true ->
     getChangedFields arrayOfOne justA None = Throw InvalidArgument).
Proof. intros H. specialize (H eq_refl). vm_compute in H. discriminate. Qed.

(** ** Nullish values *)

(** C3, evaluated — for [{age: null}] against [{age: 30}] the field is
    reported whether [includeNullish] is left out, [false] or [true]: only a
    pair of nullish values is skipped. *)
Theorem nullish_change_reported :
  getChangedFields ageNull ageThirty None = Normal [("age", VNull)] /\
  getChangedFields ageNull ageThirty (onlyIncludeNullish false)
    = Normal [("age", VNull)] /\
  getChangedFields ageNull ageThirty (onlyIncludeNullish true)
    = Normal [("age", VNull)].
Proof. repeat split; reflexivity. Qed.



(** A record with one field, no comparator for it and nothing ignored. *)
Lemma single_field_diff o o' k v w options :
  ignoreFieldsOf options = [] ->
  customComparatorsOf options !! k = None ->
  getChangedFields (VObject o [(k, v)]) (VObject o' [(k, w)]) options =
    Normal (if negb (includeNullishOf options) && isNullish v && isNullish w
            then []
            else if negb (areEqual (deepOf options) v w) then [(k, v)] else []).
Proof.
  intros Hign Hcmp. rewrite getChangedFields_unfold.
  cbn [isObjectValue andb ownKeys map fst forEach].
  unfold visitKey. rewrite Hign, Hcmp.
  rewrite bool_decide_eq_false_2 by apply not_elem_of_nil.
  cbn [getProp lookupField]. rewrite String.eqb_refl. cbn [default from_option id].
  destruct (negb (includeNullishOf options) && isNullish v && isNullish w);
    [done|].
  by destruct (areEqual (deepOf options) v w).
Qed.

(** ** Mismatched kinds *)

(** C5, evaluated — an array against a plain object is not compared by
    identity: in deep mode the pair enters the record rule, which compares
    the key counts and then every index of the array with the property of
    that name; so [[1]] and [{"0": 1}], two different instances, are judged
    equal, and a field holding them is not reported. *)
Theorem array_against_record_by_keys :
  (forall r xs r' fs,
      plainKeys (VArray r xs) = true ->
      areEqual true (VArray r xs) (VObject r' fs) =
        if negb (length xs =? length fs) then false
        else forallb
               (fun index =>
                  areEqual true (nth index xs VUndefined)
                    (getProp (VObject r' fs) (indexKey index)))
               (seq 0 (length xs))) /\
  strictEq arrayOfOne recordOfOne = false /\
  areEqual true arrayOfOne recordOfOne = true /\
  getChangedFields (underA 1 arrayOfOne) (underA 2 recordOfOne) None = Normal [].
Proof.
  split; [|repeat split; reflexivity].
  intros r xs r' fs _. rewrite areEqual_objects by done.
  cbn [negb ownKeys]. rewrite !length_map, length_seq.
  destruct (negb (length xs =? length fs)); [done|].
  rewrite forallb_over_map. apply forallb_ext_in. intros i _.
  by rewrite <- getIndex_array with (r := r).
Qed.

(** ** Nested records in deep mode *)



(** ** Arrays: shallow against deep *)

(** C7 — For [{a: [1]}] against [{a: [1]}] with the two arrays different
    instances, [getChangedFields] returns [{}] in deep mode (the default) and
    [{a: [1]}] with [deep: false].  In shallow mode two different array
    instances are never equal; in deep mode two arrays are equal exactly when
    their lengths agree and the elements at each index are equal, compared
    again in deep mode. *)
Theorem shallow_and_deep_arrays r r' :
  r <> r' ->
  (forall o o',
      getChangedFields (underA o (VArray r [num1])) (underA o' (VArray r' [num1]))
        (onlyDeep true) = Normal [] /\
      getChangedFields (underA o (VArray r [num1])) (underA o' (VArray r' [num1]))
        None = Normal [] /\
      getChangedFields (underA o (VArray r [num1])) (underA o' (VArray r' [num1]))
        (onlyDeep false) = Normal [("a", VArray r [num1])]) /\
  (forall xs ys, areEqual false (VArray r xs) (VArray r' ys) = false) /\
  (forall xs ys,
      areEqual true (VArray r xs) (VArray r' ys) =
        (length xs =? length ys)
        && forallb
             (fun index =>
                areEqual true (nth index xs VUndefined) (nth index ys VUndefined))
             (seq 0 (length xs))).
Proof.
  intros Hne. apply Nat.eqb_neq in Hne.
  split; [|split].
  - intros o o'. unfold underA.
    rewrite !single_field_diff by done.
    cbn -[Nat.eqb]. by rewrite Hne.
  - intros xs ys. rewrite areEqual_arrays. cbn [negb]. rewrite Hne.
    by destruct (negb _).
  - intros xs ys. rewrite areEqual_arrays. cbn [negb].
    by destruct (length xs =? length ys).
Qed.

Lemma shallow_and_deep_arrays_witness :
  1 <> 2 /\
  getChangedFields (underA 3 (VArray 1 [num1])) (underA 4 (VArray 2 [num1]))
    (onlyDeep false) = Normal [("a", VArray 1 [num1])].
Proof.
  split; [lia|].
  apply (shallow_and_deep_arrays 1 2); lia.
Defined.

(** ** Dates *)

(** C8 — Two [Date]s are equal for the comparator exactly when their time
    values are, whichever instances they are and whether [deep] is set or
    not (two instances of one valid instant are equal); the same holds for a
    field holding them, and in deep mode under any number of enclosing arrays
    and records. *)
Theorem dates_by_time_value :
  (forall deep r t r' t',
      areEqual deep (VDate r t) (VDate r' t') = PrimFloat.eqb t t') /\
  (forall deep r r' t,
      isNaN t = false -> areEqual deep (VDate r t) (VDate r' t) = true) /\
  (forall deep o o' r t r' t',
      getChangedFields (underA o (VDate r t)) (underA o' (VDate r' t'))
        (onlyDeep deep)
      = Normal (if PrimFloat.eqb t t' then [] else [("a", VDate r t)])) /\
  (forall path r t r' t',
      areEqual true (nestCurrent path (VDate r t)) (nestOriginal path (VDate r' t'))
      = PrimFloat.eqb t t').
Proof.
  split; [done|]. split; [|split].
  - intros deep r r' t Hvalid. cbn. unfold isNaN in Hvalid.
    by destruct (PrimFloat.eqb t t).
  - intros deep o o' r t r' t'. unfold underA.
    rewrite single_field_diff by done.
    cbn. by destruct (PrimFloat.eqb t t').
  - intros path r t r' t'.
    induction path as [|[a b|key a b] path IH]; [done| |].
    + cbn [nestCurrent nestOriginal]. rewrite areEqual_arrays.
      cbn. by rewrite IH, andb_true_r.
    + cbn [nestCurrent nestOriginal]. rewrite areEqual_objects by done.
      cbn [negb ownKeys map fst length Nat.eqb forallb getProp lookupField].
      rewrite String.eqb_refl. cbn [default from_option id].
      by rewrite IH, andb_true_r.
Qed.

(** ** Custom comparators *)



(** ** Asymmetry *)

(** C10 — The diff is not symmetric: with default options, [{a: 1}] has no
    changes against [{a: 1, b: 2}], while [{a: 1, b: 2}] has changes against
    [{a: 1}]; only the keys of the first argument are visited. *)
Theorem hasChanges_not_symmetric :
  exists r fs r' gs,
    hasChanges (VObject r fs) (VObject r' gs) None = Normal false /\
    hasChanges (VObject r' gs) (VObject r fs) None = Normal true.
Proof.
  exists 5, [("a", num1)], 6, [("a", num1); ("b", num2)].
  split; reflexivity.
Qed.

(** * Further properties of the comparator *)

(** ** Induction on values, through arrays and records *)

Lemma Value_ind_nested (P : Value -> Prop) :
  P VUndefined -> P VNull -> (forall b, P (VBool b)) ->
  (forall x, P (VNumber x)) -> (forall s, P (VString s)) ->
  (forall r t, P (VDate r t)) ->
  (forall r xs, Forall P xs -> P (VArray r xs)) ->
  (forall r fs, Forall (fun kv => P (snd kv)) fs -> P (VObject r fs)) ->
  forall v, P v.
Proof.
  intros Hu Hn Hb Hx Hs Hd Ha Ho.
  fix IH 1. intros [| |b|x|s|r t|r xs|r fs];
    [exact Hu | exact Hn | apply Hb | apply Hx | apply Hs | apply Hd | |].
  - apply Ha. induction xs as [|x xs IHxs]; constructor; [apply IH | apply IHxs].
  - apply Ho. induction fs as [|[k x] fs IHfs]; constructor; [apply IH | apply IHfs].
Qed.

Lemma lookupField_elem (fs : Fields) k v :
  lookupField fs k = Some v -> (k, v) ∈ fs.
Proof.
  induction fs as [|[k' w] fs IH]; simpl; [done|].
  destruct (String.eqb_spec k' k) as [->|_].
  - intros [= ->]. apply elem_of_cons. by left.
  - intros H. apply elem_of_cons. right. by apply IH.
Qed.

(** What [current[key]] is for an own key: an element, or a field value. *)
Lemma getProp_own_array r xs key :
  key ∈ ownKeys (VArray r xs) ->
  exists i, key = indexKey i /\ i < length xs /\
            getProp (VArray r xs) key = nth i xs VUndefined /\
            nth i xs VUndefined ∈ xs.
Proof.
  intros (i & -> & [_ Hi]%elem_of_seq)%list_elem_of_fmap. simpl in Hi.
  exists i. split; [done|]. split; [done|].
  split; [apply (getIndex_array r)|].
  apply list_elem_of_In, nth_In, Hi.
Qed.

Lemma getProp_own_record r fs key :
  key ∈ ownKeys (VObject r fs) ->
  exists v, lookupField fs key = Some v /\
            getProp (VObject r fs) key = v /\ (key, v) ∈ fs.
Proof.
  intros [v Hv]%lookupField_keys. exists v.
  split; [done|]. split; [by simpl; rewrite Hv | by apply lookupField_elem].
Qed.

(** ** [NaN] *)

Lemma SFcompare_refl f :
  f <> SpecFloat.S754_nan -> SpecFloat.SFcompare f f = Some Eq.
Proof.
  destruct f as [s|s| |s m e]; intros H; simpl; try done.
  - by destruct s.
  - rewrite Z.compare_refl, Pos.compare_refl. by destruct s.
Qed.

(** A number that differs from itself differs from every number. *)
Lemma eqb_NaN x y :
  isNaN x = true -> PrimFloat.eqb x y = false /\ PrimFloat.eqb y x = false.
Proof.
  unfold isNaN. rewrite !FloatAxioms.eqb_spec. unfold SpecFloat.SFeqb.
  intros H.
  assert (Hn : FloatOps.Prim2SF x = SpecFloat.S754_nan).
  { destruct (FloatOps.Prim2SF x) eqn:Hx; try done;
      rewrite SFcompare_refl in H by done; done. }
  rewrite Hn. simpl. split; [done|]. by destruct (FloatOps.Prim2SF y).
Qed.

(** X1 — A number that is [NaN] is equal to nothing, itself included, and an
    invalid [Date] is equal to no [Date], in either mode and on either side;
    so a field of [currentValue] holding [NaN] is reported even when the two
    arguments are the same object. *)
Theorem nan_equal_to_nothing deep x :
  isNaN x = true ->
  (forall v, areEqual deep (VNumber x) v = false
             /\ areEqual deep v (VNumber x) = false) /\
  (forall r r' t, areEqual deep (VDate r x) (VDate r' t) = false
                  /\ areEqual deep (VDate r' t) (VDate r x) = false) /\
  (forall r, getChangedFields (VObject r [("a", VNumber x)])
               (VObject r [("a", VNumber x)]) (onlyDeep deep)
             = Normal [("a", VNumber x)]).
Proof.
  intros Hnan. split; [|split].
  - intros v. split.
    + destruct v as [| | |y| | | |]; try done.
      exact (proj1 (eqb_NaN x y Hnan)).
    + rewrite areEqual_primitive by apply orb_true_r.
      rewrite andb_false_r. destruct v as [| | |y| | | |]; try done.
      exact (proj2 (eqb_NaN x y Hnan)).
  - intros r r' t. split.
    + exact (proj1 (eqb_NaN x t Hnan)).
    + exact (proj2 (eqb_NaN x t Hnan)).
  - intros r. rewrite single_field_diff by done. cbn.
    destruct (eqb_NaN x x Hnan) as [-> _]. done.
Qed.

Lemma nan_equal_to_nothing_witness :
  isNaN nan = true /\
  getChangedFields (aNaN 1) (aNaN 1) (onlyDeep true) = Normal [("a", VNumber nan)].
Proof.
  split; [reflexivity|].
  apply (nan_equal_to_nothing true nan). reflexivity.
Defined.

(** ** Kinds *)

(** X2 — Values of different [typeof] are never equal (no coercion: [1]
    against ["1"], [undefined] against [null]), and a primitive or a [Date]
    is never equal to an array or a plain object, in either mode. *)
Theorem different_kinds_unequal deep a b :
  typeOf a <> typeOf b \/ isPrimitive a <> isPrimitive b ->
  areEqual deep a b = false.
Proof.
  intros H.
  destruct a, b; try reflexivity; exfalso; destruct H as [H|H]; by apply H.
Qed.

Lemma different_kinds_unequal_witness :
  areEqual true num1 (VString "1") = false /\
  areEqual true VNull emptyRecord = false.
Proof.
  split.
  - apply (different_kinds_unequal true num1 (VString "1")). left. discriminate.
  - apply (different_kinds_unequal true VNull emptyRecord). right. discriminate.
Defined.

(** ** Shallow mode *)

(** X3 — With [deep] false nothing is compared by content: two values are
    equal exactly when they are [===], except that two [Date]s compare by
    time value (and two arrays must also agree in length). *)
Theorem shallow_is_identity a b :
  areEqual false a b =
    if instanceofDate a && instanceofDate b
    then PrimFloat.eqb (getTime a) (getTime b)
    else strictEq a b && (arrayLength a =? arrayLength b).
Proof.
  rewrite areEqual_unfold.
  destruct a, b; cbn -[Nat.eqb]; rewrite ?andb_true_r; try reflexivity.
  by destruct (length _ =? length _); rewrite ?andb_true_r, ?andb_false_r.
Qed.

(** ** Structural copies *)

Lemma copyAt_id v : copyAt (fun r => r) v = v.
Proof.
  induction v as [| | | | | |r xs IH|r fs IH] using Value_ind_nested;
    try reflexivity; simpl; f_equal.
  - induction IH as [|x xs Hx _ IHxs]; simpl; [done | by rewrite Hx, IHxs].
  - induction IH as [|[k x] fs Hx _ IHfs]; simpl in *; [done | by rewrite Hx, IHfs].
Qed.

Lemma lookupField_copyAt f (fs : Fields) key :
  lookupField (map (fun kv => (fst kv, copyAt f (snd kv))) fs) key
  = copyAt f <$> lookupField fs key.
Proof.
  induction fs as [|[k v] fs IH]; simpl; [done|].
  by destruct (String.eqb k key).
Qed.

Lemma ownKeys_copyAt f v : ownKeys (copyAt f v) = ownKeys v.
Proof.
  destruct v as [| | | | | |r xs|r fs]; simpl; try done.
  - by rewrite length_map.
  - rewrite map_map. by apply map_ext.
Qed.

Lemma getProp_copyAt f v key : getProp (copyAt f v) key = copyAt f (getProp v key).
Proof.
  destruct v as [| | | | | |r xs|r fs]; simpl; try done.
  - destruct (arrayIndex key) as [i|].
    + exact (map_nth (copyAt f) xs VUndefined i).
    + rewrite length_map. by destruct (String.eqb key "length").
  - rewrite lookupField_copyAt. by destruct (lookupField fs key).
Qed.

(** Deep comparison of two values and of copies of them agree. *)
Lemma areEqual_copyAt a :
  forall b f g, areEqual true (copyAt f a) (copyAt g b) = areEqual true a b.
Proof.
  induction a as [| | | | | |r xs IH|r fs IH] using Value_ind_nested;
    try (intros []; reflexivity).
  - (* an array *)
    intros b f g. rewrite Forall_forall in IH.
    destruct b as [| | | | | |r' ys|r' gs]; try reflexivity.
    + cbn [copyAt]. rewrite !areEqual_arrays, !length_map.
      destruct (negb (length xs =? length ys)); [done|]. cbn [negb].
      apply forallb_ext_in. intros i [_ Hi]%elem_of_seq.
      change VUndefined with (copyAt f VUndefined) at 1.
      change VUndefined with (copyAt g VUndefined) at 2.
      rewrite !map_nth. apply IH, list_elem_of_In, nth_In. simpl in Hi. lia.
    + rewrite !areEqual_objects by done. cbn [negb].
      rewrite !ownKeys_copyAt.
      destruct (negb (length _ =? length _)); [done|].
      apply forallb_ext_in. intros key Hkey. rewrite !getProp_copyAt.
      destruct (getProp_own_array _ _ _ Hkey) as (i & _ & _ & -> & Hin).
      by apply IH.
  - (* a plain object *)
    intros b f g. rewrite Forall_forall in IH.
    destruct b as [| | | | | |r' ys|r' gs]; try reflexivity.
    all: rewrite !areEqual_objects by done; cbn [negb];
      rewrite !ownKeys_copyAt;
      (destruct (negb (length _ =? length _)); [done|]);
      apply forallb_ext_in; intros key Hkey; rewrite !getProp_copyAt;
      destruct (getProp_own_record _ _ _ Hkey) as (v & _ & -> & Hin);
      exact (IH (key, v) Hin _ f g).
Qed.

(** A value without [NaN] is equal to itself, in either mode. *)
Lemma areEqual_refl v : noNaN v = true -> forall deep, areEqual deep v v = true.
Proof.
  induction v as [| |b|x|s|r t|r xs IH|r fs IH] using Value_ind_nested;
    intros Hv deep; try reflexivity.
  - by destruct b.
  - simpl in *. unfold isNaN in Hv. by destruct (PrimFloat.eqb x x).
  - simpl. apply String.eqb_refl.
  - simpl in *. unfold isNaN in Hv. by destruct (PrimFloat.eqb t t).
  - rewrite areEqual_arrays, !Nat.eqb_refl. cbn [negb].
    destruct deep; [|done]. cbn [negb].
    rewrite Forall_forall in IH. simpl in Hv. rewrite forallb_forall in Hv.
    apply forallb_forall. intros i [_ Hi]%in_seq.
    assert (Hin : In (nth i xs VUndefined) xs) by (apply nth_In; simpl in Hi; lia).
    apply IH; [by apply list_elem_of_In | by apply Hv].
  - rewrite areEqual_objects by done. rewrite Nat.eqb_refl.
    destruct deep; [|by simpl; rewrite Nat.eqb_refl]. cbn [negb].
    rewrite Forall_forall in IH. simpl in Hv. rewrite forallb_forall in Hv.
    apply forallb_forall. intros key Hkey%list_elem_of_In.
    destruct (getProp_own_record _ _ _ Hkey) as (v & _ & -> & Hin).
    apply (IH (key, v) Hin). by apply (Hv (key, v)), list_elem_of_In.
Qed.

(** X4 — Deep comparison never looks at which instances it is given: the
    verdict on two values is the verdict on structural copies of them. *)
Theorem deep_ignores_instances a b f g :
  areEqual true (copyAt f a) (copyAt g b) = areEqual true a b.
Proof. apply areEqual_copyAt. Qed.

(** X5 — A value without [NaN] (no [NaN] number, no invalid [Date], at any
    depth) is equal to itself in either mode, and in deep mode to every
    structural copy of itself, on either side. *)
Theorem equal_to_itself_and_to_copies v :
  noNaN v = true ->
  (forall deep, areEqual deep v v = true) /\
  (forall f, areEqual true v (copyAt f v) = true
             /\ areEqual true (copyAt f v) v = true).
Proof.
  intros Hv. split; [by apply areEqual_refl|].
  intros f. split.
  - rewrite <- (copyAt_id v) at 1. rewrite areEqual_copyAt. by apply areEqual_refl.
  - rewrite <- (copyAt_id v) at 2. rewrite areEqual_copyAt. by apply areEqual_refl.
Qed.

Lemma equal_to_itself_and_to_copies_witness :
  noNaN (john 20) = true /\
  areEqual false (john 20) (john 20) = true /\
  areEqual true (john 20) (john 23) = true.
Proof.
  split; [reflexivity|]. split.
  - apply (equal_to_itself_and_to_copies (john 20)). reflexivity.
  - exact (proj1 (proj2 (equal_to_itself_and_to_copies (john 20) eq_refl)
                        (fun r => r + 3))).
Defined.

(** * Further properties of the field diff *)

(** ** The loop, round by round *)

Lemma setField_fresh (fs : Fields) key v :
  key ∉ keysOf fs -> setField fs key v = fs ++ [(key, v)].
Proof.
  unfold keysOf. induction fs as [|[k w] fs IH]; simpl; [done|].
  intros Hkey. apply not_elem_of_cons in Hkey as [Hne Hkey].
  destruct (String.eqb_spec k key); [congruence|]. by rewrite IH.
Qed.

Lemma forEach_ext (keys : list string) f g (changedFields : Fields) :
  (forall k cf, k ∈ keys -> f cf k = g cf k) ->
  forEach keys f changedFields = forEach keys g changedFields.
Proof.
  revert changedFields. induction keys as [|key keys IH]; intros cf H; [done|].
  simpl. rewrite H by (apply elem_of_cons; by left).
  destruct (g cf key) as [cf'|e]; [|done]. simpl.
  apply IH. intros k cf'' Hk. apply H, elem_of_cons. by right.
Qed.

Section Rounds.
Variables (includeNullish : bool) (customComparators : gmap string Comparator).
Variables (deep : bool) (ignoreFields : list string).
Variables (currentValue originalValue : Value).

Let visit := visitKey includeNullish customComparators deep ignoreFields
               currentValue originalValue.
Let decided := verdict includeNullish customComparators deep ignoreFields
                 currentValue originalValue.

(** A round completes unless the field is visited with a comparator that
    throws. *)
Lemma verdict_completes key :
  (exists b, decided key = Normal b) <->
  (key ∈ ignoreFields \/
   forall comparator, customComparators !! key = Some comparator ->
     exists b, comparator (getProp currentValue key) (getProp originalValue key)
               = Returns b).
Proof.
  unfold decided, verdict. destruct (bool_decide_reflect (key ∈ ignoreFields)).
  { split; [by left | by exists false]. }
  destruct (customComparators !! key) as [comparator|].
  - destruct (comparator _ _) as [b|thrown] eqn:Hc.
    + split; [|by exists (negb b)]. intros _. right. intros ? [= <-]. eauto.
    + split; [by intros [? ?]|]. intros [?|H]; [done|].
      destruct (H _ eq_refl) as [b Hb]. congruence.
  - split; [by right|]. intros _. destruct (_ && _ && _); eauto.
Qed.

(** When every round completes, so does the loop. *)
Lemma forEach_completes (keys : list string) changedFields :
  (forall k, k ∈ keys -> exists b, decided k = Normal b) ->
  exists result, forEach keys visit changedFields = Normal result.
Proof.
  revert changedFields. induction keys as [|key keys IH]; intros cf H.
  { by exists cf. }
  simpl. unfold visit. rewrite visitKey_verdict.
  destruct (H key) as [b Hb]; [apply elem_of_cons; by left|].
  fold decided. rewrite Hb. simpl.
  apply IH. intros k Hk. apply H, elem_of_cons. by right.
Qed.

(** The first round that throws ends the loop with what it threw. *)
Lemma forEach_throws (pre post : list string) key e changedFields :
  (forall k, k ∈ pre -> exists b, decided k = Normal b) ->
  decided key = Throw e ->
  forEach (pre ++ key :: post) visit changedFields = Throw e.
Proof.
  revert changedFields. induction pre as [|k pre IH]; intros cf Hpre Hkey; simpl.
  - unfold visit. rewrite visitKey_verdict. fold decided. by rewrite Hkey.
  - unfold visit. rewrite visitKey_verdict. fold decided.
    destruct (Hpre k) as [b ->]; [apply elem_of_cons; by left|]. simpl.
    apply IH; [|done]. intros k' Hk'. apply Hpre, elem_of_cons. by right.
Qed.

(** Over keys that are distinct and not yet written, the loop appends the
    fields its rounds write, in the order of the keys. *)
Lemma forEach_appends (keys : list string) changedFields result :
  NoDup keys ->
  (forall k, k ∈ keys -> k ∉ keysOf changedFields) ->
  forEach keys visit changedFields = Normal result ->
  result = changedFields
           ++ map (fun k => (k, getProp currentValue k))
                (List.filter (fun k => writes (decided k)) keys).
Proof.
  revert changedFields.
  induction keys as [|key keys IH]; intros cf Hnd Hfresh Hrun.
  { injection Hrun as <-. simpl. by rewrite app_nil_r. }
  apply NoDup_cons in Hnd as [Hkey Hnd].
  simpl in Hrun. unfold visit in Hrun. rewrite visitKey_verdict in Hrun.
  fold decided in Hrun. simpl.
  destruct (decided key) as [b|] eqn:Hd; [|done]. simpl in Hrun.
  apply IH in Hrun; [|done|].
  - destruct b; simpl; [|done]. subst result.
    rewrite setField_fresh by (apply Hfresh, elem_of_cons; by left).
    by rewrite <- app_assoc.
  - intros k Hk. assert (k ∉ keysOf cf) by (apply Hfresh, elem_of_cons; by right).
    destruct b; [|done].
    rewrite setField_fresh by (apply Hfresh, elem_of_cons; by left).
    unfold keysOf. rewrite map_app. simpl.
    intros [?|Hin]%elem_of_app; [done|].
    apply list_elem_of_singleton in Hin as ->. done.
Qed.

End Rounds.

(** ** The result, field by field *)

Lemma written_fields currentValue originalValue options result :
  getChangedFields currentValue originalValue options = Normal result ->
  NoDup (ownKeys currentValue) ->
  result = map (fun k => (k, getProp currentValue k))
             (List.filter
                (fun k => writes (verdictOf options currentValue originalValue k))
                (ownKeys currentValue)).
Proof.
  rewrite getChangedFields_unfold.
  destruct (isObjectValue currentValue && isObjectValue originalValue); [|done].
  intros Hrun Hnd.
  apply forEach_appends in Hrun; [done | done |].
  intros k _. apply not_elem_of_nil.
Qed.

(** X6 — When the keys of [currentValue] are distinct (as the keys of an
    object are), the result holds exactly the fields whose round writes them,
    each with the value [currentValue] has there, in the order of
    [Object.keys(currentValue)].  The fields of
    [currentValue] do not bear inherited names. *)
Theorem result_is_the_written_fields currentValue originalValue options result :
  plainKeys currentValue = true ->
  getChangedFields currentValue originalValue options = Normal result ->
  NoDup (ownKeys currentValue) ->
  result = map (fun k => (k, getProp currentValue k))
             (List.filter
                (fun k => writes (verdictOf options currentValue originalValue k))
                (ownKeys currentValue)).
Proof. intros _. apply written_fields. Qed.

Lemma result_is_the_written_fields_witness :
  plainKeys withB = true /\
  getChangedFields withB cTwo None = Normal [("b", num2)] /\
  NoDup (ownKeys withB) /\
  [("b", num2)] =
    map (fun k => (k, getProp withB k))
      (List.filter (fun k => writes (verdictOf None withB cTwo k)) (ownKeys withB)).
Proof.
  assert (Hnd : NoDup (ownKeys withB)).
  { apply NoDup_cons. split; [|apply NoDup_singleton].
    intros H%list_elem_of_singleton. discriminate H. }
  split; [reflexivity|]. split; [reflexivity|]. split; [exact Hnd|].
  apply (result_is_the_written_fields withB cTwo None);
    [reflexivity | reflexivity | exact Hnd].
Defined.

(** X7 — A field named in [ignoreFields] is never in the result, whatever
    its values are and whatever its custom comparator would say. *)
Theorem ignored_field_never_reported currentValue originalValue options result k :
  getChangedFields currentValue originalValue options = Normal result ->
  k ∈ ignoreFieldsOf options ->
  k ∉ keysOf result.
Proof.
  rewrite getChangedFields_unfold.
  destruct (isObjectValue currentValue && isObjectValue originalValue); [|done].
  intros Hrun Hign Hin%lookupField_keys.
  destruct (forEach_lookup _ _ _ _ _ _ _ _ _ Hrun k) as [Hout Hvisited].
  destruct (decide (k ∈ ownKeys currentValue)) as [Hk|Hk].
  - destruct (Hvisited Hk) as (b & Hb & Hres).
    unfold verdict in Hb. rewrite bool_decide_eq_true_2 in Hb by done.
    injection Hb as <-. rewrite Hres in Hin. by destruct Hin.
  - rewrite (Hout Hk) in Hin. by destruct Hin.
Qed.

Lemma ignored_field_never_reported_witness :
  getChangedFields withB justA (ignoredWithComparator "b" alwaysChanged)
  = Normal [] /\
  "b" ∉ keysOf [].
Proof.
  split; [reflexivity|].
  apply (ignored_field_never_reported withB justA
           (ignoredWithComparator "b" alwaysChanged) [] "b"); [reflexivity|].
  apply elem_of_cons. by left.
Defined.

(** ** Throwing comparators *)

(** X8 — A call returns exactly when both arguments pass the argument check
    and every custom comparator of a field of [currentValue] that is not
    ignored returns; comparators of ignored fields and of fields
    [currentValue] lacks are never called.  Without custom comparators a call
    on two objects always returns.  The fields of
    [currentValue] do not bear inherited names. *)
Theorem returns_iff_comparators_return currentValue originalValue options :
  plainKeys currentValue = true ->
  ((exists result,
       getChangedFields currentValue originalValue options = Normal result)
   <->
   isObjectValue currentValue = true /\ isObjectValue originalValue = true /\
   forall k comparator,
     k ∈ ownKeys currentValue -> k ∉ ignoreFieldsOf options ->
     customComparatorsOf options !! k = Some comparator ->
     exists b, comparator (getProp currentValue k) (getProp originalValue k)
               = Returns b)
  /\
  (customComparatorsOf options = ∅ ->
   isObjectValue currentValue = true -> isObjectValue originalValue = true ->
   exists result,
     getChangedFields currentValue originalValue options = Normal result).
Proof.
  intros _.
  assert (Hiff :
    (exists result,
        getChangedFields currentValue originalValue options = Normal result)
    <->
    isObjectValue currentValue = true /\ isObjectValue originalValue = true /\
    forall k comparator,
      k ∈ ownKeys currentValue -> k ∉ ignoreFieldsOf options ->
      customComparatorsOf options !! k = Some comparator ->
      exists b, comparator (getProp currentValue k) (getProp originalValue k)
                = Returns b).
  { rewrite getChangedFields_unfold.
    destruct (isObjectValue currentValue), (isObjectValue originalValue); simpl;
      try (split; [by intros [? ?] | by intros (? & ? & _)]).
    split.
    - intros [result Hrun]. do 2 (split; [done|]).
      intros k comparator Hk Hign Hcmp.
      apply (forEach_lookup _ _ _ _ _ _ _ _ _ Hrun k) in Hk as (b & Hb & _).
      assert (Hc : exists b, verdict (includeNullishOf options)
                     (customComparatorsOf options) (deepOf options)
                     (ignoreFieldsOf options) currentValue originalValue k
                   = Normal b) by eauto.
      apply verdict_completes in Hc as [?|Hc]; [done | by apply Hc].
    - intros (_ & _ & H). apply forEach_completes.
      intros k Hk. apply verdict_completes.
      destruct (decide (k ∈ ignoreFieldsOf options)); [by left|].
      right. intros comparator. by apply H. }
  split; [done|].
  intros Hnone Hc Ho. apply Hiff. do 2 (split; [done|]).
  intros k comparator _ _. by rewrite Hnone, lookup_empty.
Qed.

Lemma returns_iff_comparators_return_witness :
  plainKeys withB = true /\
  exists result, getChangedFields withB justA None = Normal result.
Proof.
  split; [reflexivity|].
  apply (proj2 (returns_iff_comparators_return withB justA None eq_refl));
    reflexivity.
Defined.

(** X9 — What the first throwing comparator throws, in the order of the keys
    of [currentValue], is what [getChangedFields] and [hasChanges] throw; no
    partial result is returned.  The fields of
    [currentValue] do not bear inherited names. *)
Theorem first_throw_propagates
    currentValue originalValue options pre k post comparator thrown :
  plainKeys currentValue = true ->
  isObjectValue currentValue = true ->
  isObjectValue originalValue = true ->
  ownKeys currentValue = pre ++ k :: post ->
  (forall k', k' ∈ pre ->
     exists b, verdictOf options currentValue originalValue k' = Normal b) ->
  k ∉ ignoreFieldsOf options ->
  customComparatorsOf options !! k = Some comparator ->
  comparator (getProp currentValue k) (getProp originalValue k) = Throws thrown ->
  getChangedFields currentValue originalValue options
    = Throw (ComparatorThrew thrown) /\
  hasChanges currentValue originalValue options = Throw (ComparatorThrew thrown).
Proof.
  intros _ Hc Ho Hkeys Hpre Hign Hcmp Hthrows.
  assert (Hget : getChangedFields currentValue originalValue options
                 = Throw (ComparatorThrew thrown)).
  { rewrite getChangedFields_unfold, Hc, Ho, Hkeys. simpl.
    apply forEach_throws; [exact Hpre|].
    unfold verdict. rewrite bool_decide_eq_false_2 by done.
    by rewrite Hcmp, Hthrows. }
  split; [done|]. unfold hasChanges. by rewrite Hget.
Qed.

Lemma first_throw_propagates_witness :
  hasChanges withB justA (onlyComparator "b" alwaysThrows)
  = Throw (ComparatorThrew (VString "no")).
Proof.
  apply (first_throw_propagates withB justA (onlyComparator "b" alwaysThrows)
           ["a"] "b" [] alwaysThrows (VString "no")); try reflexivity.
  - intros k' ->%list_elem_of_singleton. by exists false.
  - apply not_elem_of_nil.
Defined.

(** ** hasChanges *)

(** X10 — When the diff returns, [hasChanges] is true exactly when the round
    of some key of [currentValue] writes its field, and false exactly when
    the result is empty.  The fields of
    [currentValue] do not bear inherited names. *)
Theorem hasChanges_iff_some_field_written
    currentValue originalValue options result :
  plainKeys currentValue = true ->
  getChangedFields currentValue originalValue options = Normal result ->
  (hasChanges currentValue originalValue options = Normal true <->
   exists k, k ∈ ownKeys currentValue /\
             verdictOf options currentValue originalValue k = Normal true) /\
  (hasChanges currentValue originalValue options = Normal false <->
   result = []).
Proof.
  intros _ Hget. unfold hasChanges. rewrite Hget.
  cbv [mbind Completion_bind mret Completion_ret].
  rewrite getChangedFields_unfold in Hget.
  destruct (isObjectValue currentValue && isObjectValue originalValue); [|done].
  pose proof (forEach_lookup _ _ _ _ _ _ _ _ _ Hget) as Hlook.
  split.
  - split.
    + intros Hlen. destruct result as [|[k v] result]; [done|].
      destruct (Hlook k) as [Hout Hin].
      assert (Hsome : is_Some (lookupField ((k, v) :: result) k)).
      { apply lookupField_keys, elem_of_cons. by left. }
      destruct (decide (k ∈ ownKeys currentValue)) as [Hk|Hk].
      * destruct (Hin Hk) as ([] & Hb & Hres); [by exists k|].
        rewrite Hres in Hsome. by destruct Hsome.
      * rewrite (Hout Hk) in Hsome. by destruct Hsome.
    + intros (k & Hk & Hb).
      destruct (Hlook k) as [_ Hin]. destruct (Hin Hk) as (b & Hb' & Hres).
      unfold verdictOf in Hb. rewrite Hb in Hb'. injection Hb' as <-.
      destruct result; [done | reflexivity].
  - destruct result; split; done.
Qed.

Lemma hasChanges_iff_some_field_written_witness :
  hasChanges withB justA None = Normal true /\
  exists k, k ∈ ownKeys withB /\ verdictOf None withB justA k = Normal true.
Proof.
  split; [reflexivity|].
  apply (hasChanges_iff_some_field_written withB justA None [("b", num2)]);
    reflexivity.
Defined.

(** ** What the diff depends on *)

(** X11 — [originalValue] is read only under the keys of [currentValue]:
    two originals that agree there give the same result, whatever else they
    hold.  The fields of
    [currentValue] do not bear inherited names. *)
Theorem original_read_at_current_keys currentValue original original' options :
  plainKeys currentValue = true ->
  isObjectValue original = isObjectValue original' ->
  (forall k, k ∈ ownKeys currentValue -> getProp original k = getProp original' k) ->
  getChangedFields currentValue original options
    = getChangedFields currentValue original' options /\
  hasChanges currentValue original options
    = hasChanges currentValue original' options.
Proof.
  intros _ Hobj Hsame.
  assert (Hget : getChangedFields currentValue original options
                 = getChangedFields currentValue original' options).
  { rewrite !getChangedFields_unfold, Hobj.
    destruct (isObjectValue currentValue && isObjectValue original'); [|done].
    apply forEach_ext. intros k cf Hk.
    unfold visitKey. by rewrite (Hsame k Hk). }
  split; [done|]. unfold hasChanges. by rewrite Hget.
Qed.

Lemma original_read_at_current_keys_witness :
  getChangedFields justA justA None = getChangedFields justA withB None.
Proof.
  apply (original_read_at_current_keys justA justA withB None);
    [reflexivity|reflexivity|].
  intros k ->%list_elem_of_singleton. reflexivity.
Defined.

(** X12 — [includeNullish] changes nothing unless some field of
    [currentValue] is nullish on both sides: a field that became [null] or
    [undefined] from a value is reported with [includeNullish] false as with
    [includeNullish] true. *)
Theorem includeNullish_only_for_nullish_pairs
    currentValue originalValue options options' :
  customComparatorsOf options = customComparatorsOf options' ->
  deepOf options = deepOf options' ->
  ignoreFieldsOf options = ignoreFieldsOf options' ->
  (forall k, k ∈ ownKeys currentValue ->
     isNullish (getProp currentValue k) && isNullish (getProp originalValue k)
     = false) ->
  getChangedFields currentValue originalValue options
  = getChangedFields currentValue originalValue options'.
Proof.
  intros Hcmp Hdeep Hign Hpairs.
  rewrite !getChangedFields_unfold, Hcmp, Hdeep, Hign.
  destruct (isObjectValue currentValue && isObjectValue originalValue); [|done].
  apply forEach_ext. intros k cf Hk. unfold visitKey.
  rewrite <- !andb_assoc, (Hpairs k Hk), !andb_false_r. done.
Qed.

Lemma includeNullish_only_for_nullish_pairs_witness :
  getChangedFields ageNull ageThirty (onlyIncludeNullish false)
  = getChangedFields ageNull ageThirty (onlyIncludeNullish true).
Proof.
  apply (includeNullish_only_for_nullish_pairs ageNull ageThirty
           (onlyIncludeNullish false) (onlyIncludeNullish true));
    try reflexivity.
  intros k ->%list_elem_of_singleton. reflexivity.
Defined.

(** X13 — With [includeNullish] true, a field that is nullish on both sides
    (no comparator, not ignored) is reported exactly when the two values are
    not [===]: [null] against [undefined] or against a missing field counts
    as a change, [null] against [null] does not.  The fields of
    [currentValue] do not bear inherited names. *)
Theorem nullish_pair_with_includeNullish
    currentValue originalValue options result k :
  plainKeys currentValue = true ->
  getChangedFields currentValue originalValue options = Normal result ->
  k ∈ ownKeys currentValue ->
  k ∉ ignoreFieldsOf options ->
  customComparatorsOf options !! k = None ->
  includeNullishOf options = true ->
  isNullish (getProp currentValue k) = true ->
  isNullish (getProp originalValue k) = true ->
  (k ∈ keysOf result <->
   strictEq (getProp currentValue k) (getProp originalValue k) = false).
Proof.
  intros _. rewrite getChangedFields_unfold.
  destruct (isObjectValue currentValue && isObjectValue originalValue); [|done].
  intros Hrun Hk Hign Hcmp Hinc Hcur Horig.
  apply (forEach_lookup _ _ _ _ _ _ _ _ _ Hrun k) in Hk as (b & Hb & Hres).
  unfold verdict in Hb. rewrite bool_decide_eq_false_2, Hcmp, Hinc in Hb by done.
  simpl in Hb. injection Hb as <-.
  rewrite lookupField_keys, Hres.
  assert (Heq : areEqual (deepOf options) (getProp currentValue k)
                  (getProp originalValue k)
                = strictEq (getProp currentValue k) (getProp originalValue k)).
  { destruct (getProp currentValue k); try done. }
  rewrite Heq.
  destruct (strictEq _ _); simpl.
  - split; [by intros [? ?] | done].
  - split; [done | eauto].
Qed.

Lemma nullish_pair_with_includeNullish_witness :
  getChangedFields aNull emptyRecord (onlyIncludeNullish true)
    = Normal [("a", VNull)] /\
  ("a" ∈ keysOf [("a", VNull)] <->
   strictEq (getProp aNull "a") (getProp emptyRecord "a") = false).
Proof.
  split; [reflexivity|].
  apply (nullish_pair_with_includeNullish aNull emptyRecord
           (onlyIncludeNullish true) [("a", VNull)] "a"); try reflexivity.
  - apply elem_of_cons. by left.
  - apply not_elem_of_nil.
Defined.

(** ** Unchanged snapshots *)

Lemma forEach_unchanged
    includeNullish customComparators deep ignoreFields currentValue originalValue
    (keys : list string) changedFields :
  (forall k, k ∈ keys ->
     verdict includeNullish customComparators deep ignoreFields
       currentValue originalValue k = Normal false) ->
  forEach keys
    (visitKey includeNullish customComparators deep ignoreFields
       currentValue originalValue) changedFields
  = Normal changedFields.
Proof.
  induction keys as [|key keys IH]; intros H; [done|].
  simpl. rewrite visitKey_verdict, H by (apply elem_of_cons; by left). simpl.
  apply IH. intros k Hk. apply H, elem_of_cons. by right.
Qed.

Lemma isObjectValue_copyAt f v : isObjectValue (copyAt f v) = isObjectValue v.
Proof. by destruct v. Qed.

(** An own property of a value without [NaN] is without [NaN]. *)
Lemma noNaN_own v key : noNaN v = true -> key ∈ ownKeys v -> noNaN (getProp v key) = true.
Proof.
  destruct v as [| | | | | |r xs|r fs]; try by intros _ ?%elem_of_nil.
  - intros Hv Hkey. simpl in Hv. rewrite forallb_forall in Hv.
    destruct (getProp_own_array _ _ _ Hkey) as (i & _ & _ & -> & Hin).
    by apply Hv, list_elem_of_In.
  - intros Hv Hkey. simpl in Hv. rewrite forallb_forall in Hv.
    destruct (getProp_own_record _ _ _ Hkey) as (v & _ & -> & Hin).
    by apply (Hv (key, v)), list_elem_of_In.
Qed.

(** X14 — Without custom comparators, an object without [NaN] has no changes
    against itself in either mode, and in deep mode none against a structural
    copy of itself (equal contents in other instances, as in the usage
    example): the result is [{}] and [hasChanges] is [false].  The fields of
    [currentValue] do not bear inherited names. *)
Theorem unchanged_snapshot_has_no_changes x options :
  plainKeys x = true ->
  isObjectValue x = true ->
  noNaN x = true ->
  customComparatorsOf options = ∅ ->
  (getChangedFields x x options = Normal []
   /\ hasChanges x x options = Normal false) /\
  (deepOf options = true ->
   forall f, getChangedFields x (copyAt f x) options = Normal []
             /\ hasChanges x (copyAt f x) options = Normal false).
Proof.
  intros _ Hobj Hv Hnone.
  assert (Hround : forall y,
            (forall k, k ∈ ownKeys x ->
               areEqual (deepOf options) (getProp x k) (getProp y k) = true) ->
            isObjectValue y = true ->
            getChangedFields x y options = Normal []
            /\ hasChanges x y options = Normal false).
  { intros y Hy Hyobj.
    assert (Hget : getChangedFields x y options = Normal []).
    { rewrite getChangedFields_unfold, Hobj, Hyobj. simpl.
      apply forEach_unchanged. intros k Hk. unfold verdict.
      destruct (bool_decide _); [done|].
      rewrite Hnone, lookup_empty.
      destruct (_ && _ && _); [done|]. by rewrite Hy. }
    split; [done|]. unfold hasChanges. by rewrite Hget. }
  split.
  - apply Hround; [|done]. intros k Hk. by apply areEqual_refl, noNaN_own.
  - intros Hdeep f. apply Hround; [|by rewrite isObjectValue_copyAt].
    intros k Hk. rewrite Hdeep, getProp_copyAt.
    rewrite <- (copyAt_id (getProp x k)) at 1. rewrite areEqual_copyAt.
    by apply areEqual_refl, noNaN_own.
Qed.

Lemma unchanged_snapshot_has_no_changes_witness :
  getChangedFields (john 20) (john 23) None = Normal [] /\
  hasChanges (john 20) (john 23) None = Normal false.
Proof.
  exact (proj2 (unchanged_snapshot_has_no_changes (john 20) None
                  eq_refl eq_refl eq_refl eq_refl) eq_refl (fun r => r + 3)).
Defined.

(** ** Ignoring one more field *)

Lemma filter_map_filter {A B} (g : A -> B) (w : A -> bool) (p : B -> bool)
    (l : list A) :
  List.filter p (map g (List.filter w l))
  = map g (List.filter (fun x => w x && p (g x)) l).
Proof.
  induction l as [|x l IH]; simpl; [done|].
  destruct (w x); simpl; [|done].
  destruct (p (g x)); simpl; by rewrite IH.
Qed.

Lemma verdict_ignoring_more
    includeNullish customComparators deep ignoreFields currentValue originalValue
    key k :
  verdict includeNullish customComparators deep (key :: ignoreFields)
    currentValue originalValue k
  = if String.eqb k key then Normal false
    else verdict includeNullish customComparators deep ignoreFields
           currentValue originalValue k.
Proof.
  unfold verdict. destruct (String.eqb_spec k key) as [->|Hne].
  - rewrite bool_decide_eq_true_2; [done|]. apply elem_of_cons. by left.
  - destruct (bool_decide_reflect (k ∈ ignoreFields)) as [Hin|Hout].
    + rewrite bool_decide_eq_true_2; [done|]. apply elem_of_cons. by right.
    + rewrite bool_decide_eq_false_2; [done|].
      intros [?|?]%elem_of_cons; done.
Qed.

(** X15 — Adding a field to [ignoreFields] removes that field from the
    result and changes nothing else: if the call returns, so does the call
    that also ignores [key], with the same fields in the same order but for
    [key]. *)
Theorem ignoring_one_more_field currentValue originalValue options key result :
  getChangedFields currentValue originalValue options = Normal result ->
  NoDup (ownKeys currentValue) ->
  getChangedFields currentValue originalValue (alsoIgnoring key options)
  = Normal (List.filter (fun kv => negb (String.eqb (fst kv) key)) result).
Proof.
  intros Hget Hnd.
  rewrite (written_fields _ _ _ _ Hget Hnd).
  rewrite getChangedFields_unfold in Hget |- *.
  destruct (isObjectValue currentValue && isObjectValue originalValue); [|done].
  assert (Hopts : includeNullishOf (alsoIgnoring key options) = includeNullishOf options
                  /\ customComparatorsOf (alsoIgnoring key options)
                     = customComparatorsOf options
                  /\ deepOf (alsoIgnoring key options) = deepOf options
                  /\ ignoreFieldsOf (alsoIgnoring key options)
                     = key :: ignoreFieldsOf options) by done.
  destruct Hopts as (-> & -> & -> & ->).
  pose proof (forEach_lookup _ _ _ _ _ _ _ _ _ Hget) as Hlook.
  destruct (forEach_completes (includeNullishOf options)
              (customComparatorsOf options) (deepOf options)
              (key :: ignoreFieldsOf options) currentValue originalValue
              (ownKeys currentValue) []) as [result' Hrun'].
  { intros k Hk. rewrite verdict_ignoring_more.
    destruct (String.eqb k key); [by exists false|].
    destruct (Hlook k) as [_ Hin]. destruct (Hin Hk) as (b & Hb & _). eauto. }
  rewrite Hrun'. f_equal.
  apply forEach_appends in Hrun'; [|done|intros ? _; apply not_elem_of_nil].
  rewrite Hrun', filter_map_filter. simpl. f_equal.
  apply List.filter_ext. intros k. unfold verdictOf.
  rewrite verdict_ignoring_more.
  destruct (String.eqb k key); simpl; [by rewrite andb_false_r|].
  by rewrite andb_true_r.
Qed.

Lemma ignoring_one_more_field_witness :
  getChangedFields withB justA None = Normal [("b", num2)] /\
  getChangedFields withB justA (alsoIgnoring "b" None) = Normal [].
Proof.
  assert (Hnd : NoDup (ownKeys withB)).
  { apply NoDup_cons. split; [|apply NoDup_singleton].
    intros H%list_elem_of_singleton. discriminate H. }
  split; [reflexivity|].
  exact (ignoring_one_more_field withB justA None "b" [("b", num2)] eq_refl Hnd).
Defined.
